(** * go-internist helper scripts: directory-tree printers and API probes

    A shallow embedding of the five scripts of the repository
    ([tree.py], [tee.py], [zprj_tree.py], [ai.py], [api.py]) together with
    the properties their specification states about them.

    Conventions.
    - A Python [str] is a list of Unicode code points ([pystr]); [len],
      slicing and comparison work on code points, as in Python.
    - The filesystem seen by a traversal is a finite tree of [node]s.  A
      directory carries what [os.listdir] returns for it, in the order the
      operating system returns it, or the fact that listing it is denied.
    - Printing is a writer effect: a computation returns the lines it wrote
      to standard output together with how it ended.
    - The recursive printers are defined with a recursion bound; their
      entry points take the height of the tree as bound, which is shown to
      be enough.  Link cycles and the recursion limit of the interpreter
      are not modelled. *)

From Stdlib Require Import Ascii String DecimalString.
From Stdlib Require Import List Bool Arith ZArith NArith QArith Lia.
From Stdlib Require Import Permutation Sorted.
Import ListNotations.

Set Implicit Arguments.
Close Scope Q_scope.
Open Scope nat_scope.

(* ================================================================== *)
(** * Python strings *)

Definition pystr := list N.

(** UTF-8 decoding of a literal of this file into code points, so that the
    definitions below can quote the text of the scripts. *)
Fixpoint utf8_decode (bs : list N) : pystr :=
  match bs with
  | [] => []
  | b :: rest =>
    if (b <? 128)%N then b :: utf8_decode rest
    else if (b <? 224)%N then
      match rest with
      | c1 :: r => ((b - 192) * 64 + (c1 - 128))%N :: utf8_decode r
      | _ => []
      end
    else if (b <? 240)%N then
      match rest with
      | c1 :: c2 :: r =>
        ((b - 224) * 4096 + (c1 - 128) * 64 + (c2 - 128))%N :: utf8_decode r
      | _ => []
      end
    else
      match rest with
      | c1 :: c2 :: c3 :: r =>
        ((b - 240) * 262144 + (c1 - 128) * 4096 + (c2 - 128) * 64
         + (c3 - 128))%N :: utf8_decode r
      | _ => []
      end
  end.

Definition u (s : string) : pystr :=
  utf8_decode (map N_of_ascii (list_ascii_of_string s)).

(** [a == b] on strings. *)
Fixpoint str_eqb (a b : pystr) : bool :=
  match a, b with
  | [], [] => true
  | x :: a', y :: b' => (x =? y)%N && str_eqb a' b'
  | _, _ => false
  end.

(** [a <= b] on strings: lexicographic comparison of code points. *)
Fixpoint str_leb (a b : pystr) : bool :=
  match a, b with
  | [], _ => true
  | _ :: _, [] => false
  | x :: a', y :: b' =>
    if (x <? y)%N then true
    else if (y <? x)%N then false
    else str_leb a' b'
  end.

(** [s.startswith(p)] *)
Fixpoint startswith (s p : pystr) {struct p} : bool :=
  match p, s with
  | [], _ => true
  | _ :: _, [] => false
  | y :: p', x :: s' => (x =? y)%N && startswith s' p'
  end.

(** [s in names] for a set or tuple of strings. *)
Definition str_in (s : pystr) (names : list pystr) : bool :=
  existsb (str_eqb s) names.

(** [sub in s] on strings. *)
Fixpoint contains (s sub : pystr) : bool :=
  startswith s sub
  || match s with
     | [] => false
     | _ :: s' => contains s' sub
     end.

(** [str(n)] for integers. *)
Definition str_Z (z : Z) : pystr := u (NilZero.string_of_int (Z.to_int z)).
Definition str_nat (n : nat) : pystr := str_Z (Z.of_nat n).

(** [str.isspace] for one code point (the whitespace table of CPython). *)
Definition isspace (c : N) : bool :=
  ((9 <=? c) && (c <=? 13) || (28 <=? c) && (c <=? 32)
   || (c =? 133) || (c =? 160) || (c =? 5760)
   || (8192 <=? c) && (c <=? 8202)
   || (c =? 8232) || (c =? 8233) || (c =? 8239) || (c =? 8287)
   || (c =? 12288))%N.

Fixpoint lstrip_by (drop : N -> bool) (s : pystr) : pystr :=
  match s with
  | [] => []
  | c :: s' => if drop c then lstrip_by drop s' else s
  end.

Definition strip_by (drop : N -> bool) (s : pystr) : pystr :=
  rev (lstrip_by drop (rev (lstrip_by drop s))).

(** [s.strip()] and [s.strip(chars)] *)
Definition strip (s : pystr) : pystr := strip_by isspace s.
Definition strip_chars (chars : pystr) (s : pystr) : pystr :=
  strip_by (fun c => existsb (N.eqb c) chars) s.

(* ================================================================== *)
(** * Sorting *)

(** [list.sort] and [sorted] are stable; the stable sorted arrangement of a
    list is unique, and insertion from the right computes it. *)
Section Sort.
Variable A : Type.
Variable leb : A -> A -> bool.

Fixpoint insert (x : A) (l : list A) : list A :=
  match l with
  | [] => [x]
  | y :: l' => if leb x y then x :: l else y :: insert x l'
  end.

Fixpoint sort (l : list A) : list A :=
  match l with
  | [] => []
  | x :: l' => insert x (sort l')
  end.

(** The order a list is sorted by. *)
Definition lep (a b : A) : Prop := leb a b = true.
End Sort.

(* ================================================================== *)
(** * The filesystem *)

(** What a path resolves to.  [Dir (Some l)] is a directory whose listing is
    [l]; [Dir None] is a directory that [os.listdir] refuses to list;
    [Other] is an object that is neither a directory nor a regular file (a
    socket, a device, a dangling link). *)
#[warnings="-register-all"]
Inductive node : Type :=
| File : node
| Other : node
| Dir (listing : option (list (pystr * node))) : node.

(** A directory entry: the name returned by [os.listdir] and the object
    that [os.path.join(path, name)] resolves to. *)
Definition entry : Type := (pystr * node)%type.

Definition isdir (n : node) : bool :=
  match n with Dir _ => true | _ => false end.

Definition isfile (n : node) : bool :=
  match n with File => true | _ => false end.

Inductive exn : Type :=
| PermissionError
| NotADirectoryError
| ValueError
| TypeError
| AttributeError
| KeyError
| IndexError
| JSONDecodeError
| Timeout
| RequestException.

(** How a call ends.  [Blocked] is a call that never returns because it
    waits on the network.  [OutOfFuel] is an artefact of the recursion bound
    of the embedding; the entry points below are shown never to end so. *)
Inductive result (A : Type) : Type :=
| Ok (a : A)
| Raised (e : exn)
| Blocked
| OutOfFuel.
Arguments Ok {A} a.
Arguments Raised {A} e.
Arguments Blocked {A}.
Arguments OutOfFuel {A}.

Definition listdir (n : node) : result (list entry) :=
  match n with
  | Dir (Some l) => Ok l
  | Dir None => Raised PermissionError
  | _ => Raised NotADirectoryError
  end.

(** Nesting depth of a tree of directories. *)
Fixpoint height (n : node) : nat :=
  match n with
  | Dir (Some l) => S (list_max (map (fun e => height (snd e)) l))
  | _ => 1
  end.

(* ================================================================== *)
(** * Effects *)

Definition rbind {A B} (m : result A) (k : A -> result B) : result B :=
  match m with
  | Ok a => k a
  | Raised e => Raised e
  | Blocked => Blocked
  | OutOfFuel => OutOfFuel
  end.

(** A computation that prints: the lines written, and the outcome. *)
Definition io (A : Type) : Type := (list pystr * result A)%type.

Definition ret {A} (a : A) : io A := ([], Ok a).
Definition print (s : pystr) : io unit := ([s], Ok tt).
Definition lift {A} (r : result A) : io A := ([], r).

Definition bind {A B} (m : io A) (k : A -> io B) : io B :=
  match m with
  | (out, Ok a) => let (out', r) := k a in (out ++ out', r)
  | (out, Raised e) => (out, Raised e)
  | (out, Blocked) => (out, Blocked)
  | (out, OutOfFuel) => (out, OutOfFuel)
  end.

(** [try: m except: h], where [h e = None] when no clause matches [e]. *)
Definition try_except {A} (m : io A) (h : exn -> option (io A)) : io A :=
  match m with
  | (out, Raised e) =>
    match h e with
    | Some k => let (out', r) := k in (out ++ out', r)
    | None => (out, Raised e)
    end
  | _ => m
  end.

Declare Scope io_scope.
Delimit Scope io_scope with io.
Notation "x <- m ;; k" := (bind m (fun x => k))
  (at level 61, m at next level, right associativity) : io_scope.
Notation "m ;; k" := (bind m (fun _ => k))
  (at level 61, right associativity) : io_scope.

Declare Scope result_scope.
Delimit Scope result_scope with result.
Notation "x <- m ;; k" := (rbind m (fun x => k))
  (at level 61, m at next level, right associativity) : result_scope.

Definition stdout {A} (m : io A) : list pystr := fst m.
Definition outcome {A} (m : io A) : result A := snd m.

(* ================================================================== *)
(** * The connector glyphs shared by the three printers *)

Definition corner : pystr := u "└── ".
Definition branch : pystr := u "├── ".
Definition blank : pystr := u "    ".
Definition bar : pystr := u "│   ".

(** The glyph before an entry, and the glyph that continues the prefix of
    its children. *)
Definition is_connector (c : pystr) : Prop := c = corner \/ c = branch.

(* ================================================================== *)
(** * tree.py: the console printer *)

Module TreePy.

Definition exclude : list pystr := [u "node_modules"; u ".git"].

Definition name_leb (a b : entry) : bool := str_leb (fst a) (fst b).

(** The body of [for i, entry in enumerate(entries)], from index [i] on. *)
Fixpoint tree_for (rec : node -> pystr -> io unit) (prefix : pystr)
         (len i : nat) (entries : list entry) : io unit :=
  match entries with
  | [] => ret tt
  | (entry, full) :: rest =>
    (let connector := if i =? len - 1 then corner else branch in
     print (prefix ++ connector ++ entry) ;;
     (if isdir full then
        let extension := if i =? len - 1 then blank else bar in
        rec full (prefix ++ extension)
      else ret tt) ;;
     tree_for rec prefix len (S i) rest)%io
  end.

(** Lines 5 and 6: the entries that are displayed, in display order. *)
Definition shown (e : entry) : bool := negb (str_in (fst e) exclude).

Definition entries (listing : list entry) : list entry :=
  sort name_leb (filter shown listing).

Fixpoint tree_rec (fuel : nat) (path : node) (prefix : pystr) : io unit :=
  match fuel with
  | O => lift OutOfFuel
  | S fuel' =>
    (listing <- lift (listdir path) ;;
     let entries := entries listing in
     tree_for (tree_rec fuel') prefix (length entries) 0 entries)%io
  end.

(** [tree(path, prefix)] *)
Definition tree (path : node) (prefix : pystr) : io unit :=
  tree_rec (height path) path prefix.

End TreePy.


(* ================================================================== *)
(** * tee.py: the image printer *)

Module TeePy.

(** What the script uses of a Pillow font.  [getlength] is the advance
    width of a text, a float that is only compared and truncated, hence
    taken as the rational it denotes; [getbbox] is the bounding box
    (left, top, right, bottom). *)
Record font : Type := {
  getlength : pystr -> Q;
  getbbox : pystr -> Z * Z * Z * Z
}.

(** The bitmap, as far as the script determines it: its size and the
    texts drawn on it with their top-left corners. *)
Record image : Type := {
  size : Z * Z;
  texts : list (Z * Z * pystr)
}.

(** [(a, b) <= (c, d)] on the sort keys, with [False < True]. *)
Definition key_leb (a b : bool * pystr) : bool :=
  match fst a, fst b with
  | false, true => true
  | true, false => false
  | _, _ => str_leb (snd a) (snd b)
  end.

(** [max(xs)] on floats: the first greatest element. *)
Definition py_max (xs : list Q) : result Q :=
  match xs with
  | [] => Raised ValueError
  | x :: xs' => Ok (fold_left (fun m y => if Qle_bool y m then m else y) xs' x)
  end.

(** [int(x)]: truncation towards zero. *)
Definition int (x : Q) : Z := Z.quot (Qnum x) (Zpos (Qden x)).

(** The drawing loop: [y] advances by [line_height] after each line. *)
Fixpoint draw_for (line_height y : Z) (lines : list pystr)
  : list (Z * Z * pystr) :=
  match lines with
  | [] => []
  | line :: rest =>
    (10, y, line)%Z :: draw_for line_height (y + line_height)%Z rest
  end.

(** [font.getbbox("Ay")[3] + 4] *)
Definition line_height (fnt : font) : Z :=
  (snd (getbbox fnt (u "Ay")) + 4)%Z.

(** Lines 32 to 46 of [tree_to_jpg]: size the image and draw the text. *)
Definition render (fnt : font) (lines : list pystr) : result image :=
  (max_width <- py_max (map (getlength fnt) lines) ;;
   let line_height := line_height fnt in
   let img_height := (line_height * Z.of_nat (length lines) + 10)%Z in
   let img_width := (int max_width + 20)%Z in
   Ok {| size := (img_width, img_height);
         texts := draw_for line_height 5 lines |})%result.

Section Platform.
(** [str.lower], the Unicode case mapping of the interpreter. *)
Variable lower : pystr -> pystr.
(** The font [consola.ttf] at size 14, when it can be loaded, and the
    built-in font used otherwise. *)
Variable truetype : option font.
Variable load_default : font.

Definition keep (e : entry) : bool :=
  negb (str_in (fst e) [u "node_modules"; u ".git"])
  && negb (startswith (fst e) (u ".git"))
  && negb (str_eqb (fst e) (u "tee.py")).

Definition key (e : entry) : bool * pystr :=
  (negb (isdir (snd e)), lower (fst e)).

Definition entry_leb (a b : entry) : bool := key_leb (key a) (key b).

Fixpoint build_tree_for (rec : node -> pystr -> result (list pystr))
         (prefix : pystr) (len i : nat) (entries : list entry)
         (lines : list pystr) : result (list pystr) :=
  match entries with
  | [] => Ok lines
  | (entry, path) :: rest =>
    let connector := if i =? len - 1 then corner else branch in
    let lines := lines ++ [prefix ++ connector ++ entry] in
    if isdir path then
      let extension := if i =? len - 1 then blank else bar in
      (sub <- rec path (prefix ++ extension) ;;
       build_tree_for rec prefix len (S i) rest (lines ++ sub))%result
    else build_tree_for rec prefix len (S i) rest lines
  end.

(** Lines 6 to 10: the entries that are displayed, in display order. *)
Definition entries (listing : list entry) : list entry :=
  sort entry_leb (filter keep listing).

Fixpoint build_tree_rec (fuel : nat) (root : node) (prefix : pystr)
  : result (list pystr) :=
  match fuel with
  | O => OutOfFuel
  | S fuel' =>
    (listing <- listdir root ;;
     let entries := entries listing in
     build_tree_for (build_tree_rec fuel') prefix (length entries) 0
                    entries [])%result
  end.

(** [build_tree(root, prefix)] *)
Definition build_tree (root : node) (prefix : pystr)
  : result (list pystr) :=
  build_tree_rec (height root) root prefix.

(** [tree_to_jpg(root_directory, output_file)]; [root_name] is the last
    component of the path of [root_directory].  Returns the image
    saved to [output_file]. *)
Definition tree_to_jpg (root_name : pystr) (root_directory : node)
           (output_file : pystr) : io image :=
  (sub <- lift (build_tree root_directory []) ;;
   let lines := root_name :: sub in
   let fnt :=
     match truetype with Some f => f | None => load_default end in
   img <- lift (render fnt lines) ;;
   print (u "Saved tree to " ++ output_file) ;;
   ret img)%io.
End Platform.

End TeePy.

(* ================================================================== *)
(** * zprj_tree.py: the printer with icons *)

Module ZprjTree.

Definition SKIP : list pystr :=
  [u "node_modules"; u ".git"; u "__pycache__"].

Definition folder_icon : pystr := u "📁 ".
Definition page_icon : pystr := u "📄 ".

Definition name_leb (a b : entry) : bool := str_leb (fst a) (fst b).

(** The conditions of the comprehensions at lines 13 and 14. *)
Definition is_dir (d : entry) : bool :=
  isdir (snd d) && negb (str_in (fst d) SKIP).
Definition is_file (f : entry) : bool := isfile (snd f).

(** [dirs + files] for a listing. *)
Definition entries (listing : list entry) : list entry :=
  let entries := sort name_leb listing in
  filter is_dir entries ++ filter is_file entries.

Fixpoint print_tree_for (rec : node -> pystr -> io unit) (prefix : pystr)
         (total index : nat) (names : list entry) : io unit :=
  match names with
  | [] => ret tt
  | (name, path) :: rest =>
    (let connector := if index =? total - 1 then corner else branch in
     (if isdir path then
        print (prefix ++ connector ++ folder_icon ++ name) ;;
        let new_prefix :=
          prefix ++ (if index =? total - 1 then blank else bar) in
        rec path new_prefix
      else print (prefix ++ connector ++ page_icon ++ name)) ;;
     print_tree_for rec prefix total (S index) rest)%io
  end.

Fixpoint print_tree_rec (fuel : nat) (start_path : node) (prefix : pystr)
  : io unit :=
  match fuel with
  | O => lift OutOfFuel
  | S fuel' =>
    match listdir start_path with
    | Raised PermissionError => ret tt
    | listed =>
      (listing <- lift listed ;;
       let entries := sort name_leb listing in
       let dirs := filter is_dir entries in
       let files := filter is_file entries in
       let total := length dirs + length files in
       print_tree_for (print_tree_rec fuel') prefix total 0
                      (dirs ++ files))%io
    end
  end.

(** What follows the connector on the line of an entry, and the entries
    that get a line. *)
Definition label (e : entry) : pystr :=
  (if isdir (snd e) then folder_icon else page_icon) ++ fst e.
Definition shown (e : entry) : bool := is_dir e || is_file e.

(** [print_tree(start_path, prefix)] *)
Definition print_tree (start_path : node) (prefix : pystr) : io unit :=
  print_tree_rec (height start_path) start_path prefix.

(** The script body, run in the directory [cwd]. *)
Definition main (cwd : node) : io unit :=
  (print (u "📁 Project Tree" ++ [10%N]) ;;
   print_tree cwd [])%io.

End ZprjTree.

(* ================================================================== *)
(** * HTTP and JSON, as far as ai.py and api.py use them *)

#[warnings="-register-all"]
Inductive json : Type :=
| JNull
| JBool (b : bool)
| JNum (q : Q)
| JStr (s : pystr)
| JArr (items : list json)
| JObj (members : list (pystr * json)).

(** A received response; [json_body] is [None] when the body is not JSON. *)
Record response : Type := {
  status_code : Z;
  text : pystr;
  json_body : option json
}.

(** [response.json()]; the decoding error of requests 2.27 and later is a
    [RequestException]. *)
Definition response_json (r : response) : result json :=
  match json_body r with
  | Some j => Ok j
  | None => Raised JSONDecodeError
  end.

(** [response.ok] *)
Definition ok (r : response) : bool := (status_code r <? 400)%Z.

(** The arguments of one [requests.post] call. *)
Record request : Type := {
  url : pystr;
  headers : list (pystr * pystr);
  payload : json;
  timeout : option Z
}.

(** How the remote endpoint behaves for one request: it answers, it cannot
    be reached, or it accepts the connection and never answers. *)
Inductive endpoint : Type :=
| Replies (r : response)
| Unreachable
| Silent.

(** [requests.post(url, headers=..., json=..., timeout=...)]: without a
    timeout the call waits for the answer for ever. *)
Definition requests_post (rq : request) (server : endpoint)
  : result response :=
  match server with
  | Replies r => Ok r
  | Unreachable => Raised RequestException
  | Silent =>
    match timeout rq with
    | Some _ => Raised Timeout
    | None => Blocked
    end
  end.

Fixpoint assoc (k : pystr) (l : list (pystr * json)) : option json :=
  match l with
  | [] => None
  | (k', v) :: l' => if str_eqb k k' then Some v else assoc k l'
  end.

(** [key in v] *)
Definition json_in (key : pystr) (v : json) : result bool :=
  match v with
  | JObj members => Ok (match assoc key members with Some _ => true | None => false end)
  | JArr items =>
    Ok (existsb (fun j => match j with JStr s => str_eqb s key | _ => false end)
                items)
  | JStr s => Ok (contains s key)
  | _ => Raised TypeError
  end.

(** [v[key]] for a string key *)
Definition getitem (v : json) (key : pystr) : result json :=
  match v with
  | JObj members =>
    match assoc key members with
    | Some x => Ok x
    | None => Raised KeyError
    end
  | _ => Raised TypeError
  end.

(** [v[0]] *)
Definition getitem0 (v : json) : result json :=
  match v with
  | JArr (x :: _) => Ok x
  | JArr [] => Raised IndexError
  | JStr (c :: _) => Ok (JStr [c])
  | JStr [] => Raised IndexError
  | JObj _ => Raised KeyError
  | _ => Raised TypeError
  end.

(** The receiver of a [str] method call. *)
Definition as_str (v : json) : result pystr :=
  match v with
  | JStr s => Ok s
  | _ => Raised AttributeError
  end.

Definition BASE_URL : pystr := u "https://api.avalai.ir/v1".

(* ================================================================== *)
(** * ai.py: the translation smoke test *)

Module AiPy.

Record test_case : Type := {
  name : pystr;
  persian : pystr;
  expected : pystr
}.

Definition test_cases : list test_case :=
  [ {| name := u "Simple drug dose question";
       persian := u "دوز متوپرولول";
       expected := u "metoprolol dose" |};
    {| name := u "Maximum dose question";
       persian := u "حداکثر دوز وانکومایسین چقدر است؟";
       expected := u "What is the maximum dose of vancomycin?" |};
    {| name := u "Mixed content";
       persian := u "maximum dose وانکومایسین";
       expected := u "maximum dose vancomycin" |};
    {| name := u "Drug interaction";
       persian := u "تداخل دارویی آسپرین و وارفارین";
       expected := u "drug interaction aspirin and warfarin" |} ].

Section Environment.
(** The bearer token, a constant of the script whose value is kept out
    of this development, and the formatting done by the interpreter and
    its libraries: [json.dumps(v, indent=2)], [str(v)] of a decoded
    value, [str(e)] of an exception, and the text of the response time
    measured for the i-th request. *)
Variable API_KEY : pystr.
Variable json_dumps : json -> pystr.
Variable str_json : json -> pystr.
Variable str_exn : exn -> pystr.
Variable response_time : nat -> pystr.

Definition request_headers : list (pystr * pystr) :=
  [ (u "Authorization", u "Bearer " ++ API_KEY);
    (u "Content-Type", u "application/json") ].

(** The call at lines 63 to 68. *)
Definition translation_request (tc : test_case) : request :=
  {| url := BASE_URL ++ u "/responses";
     headers := request_headers;
     payload :=
       JObj [ (u "model", JStr (u "gemini-2.5-flash-lite"));
              (u "input",
               JStr (u "Translate this Persian medical text to clear English. Return only the English translation: "
                     ++ persian tc)) ];
     timeout := Some 30%Z |}.

(** Lines 81 and 82: the text extracted from a decoded body. *)
Definition extract_translation (result : json) : io pystr :=
  (v <- lift (getitem result (u "output_text")) ;;
   s <- lift (as_str v) ;;
   ret (strip_chars [34%N] (strip s)))%io.

(** One iteration of the loop over the test cases. *)
Definition run_case (i : nat) (tc : test_case) (server : endpoint)
  : io unit :=
  (print ([10%N] ++ u "Test " ++ str_nat i ++ u ": " ++ name tc) ;;
   print (u "Persian Input: " ++ persian tc) ;;
   try_except
     (print (u "📤 Sending request...") ;;
      response <- lift (requests_post (translation_request tc) server) ;;
      print (u "⏱️  Response time: " ++ response_time i ++ u "ms") ;;
      print (u "📥 Status code: " ++ str_Z (status_code response)) ;;
      if (status_code response =? 200)%Z then
        result <- lift (response_json response) ;;
        print (u "✅ Success!") ;;
        print (u "Raw response: " ++ json_dumps result) ;;
        present <- lift (json_in (u "output_text") result) ;;
        if (present : bool) then
          translation <- extract_translation result ;;
          print (u "🔤 Translation: '" ++ translation ++ u "'") ;;
          print (u "📏 Length: " ++ str_nat (length translation)
                   ++ u " characters") ;;
          match translation with
          | _ :: _ => print (u "✅ Translation is not empty")
          | [] => print (u "❌ Translation is empty!")
          end
        else print (u "❌ No 'output_text' field in response")
      else
        print (u "❌ Error response:") ;;
        try_except
          (error_data <- lift (response_json response) ;;
           print (json_dumps error_data))
          (fun _ => Some (print (text response))))
     (fun e =>
        match e with
        | Timeout => Some (print (u "⏰ Request timed out (30s)"))
        | RequestException | JSONDecodeError =>
          Some (print (u "🌐 Network error: " ++ str_exn e))
        | _ => Some (print (u "💥 Unexpected error: " ++ str_exn e))
        end) ;;
   print (repeat 45%N 50))%io.

(** [for i, test_case in enumerate(test_cases, 1)]; [servers i] is the
    behaviour of the endpoint for the i-th request.  The pause between
    two requests has no observable effect here. *)
Fixpoint cases_for (servers : nat -> endpoint) (i : nat)
         (cases : list test_case) : io unit :=
  match cases with
  | [] => ret tt
  | tc :: rest =>
    (run_case i tc (servers i) ;;
     cases_for servers (S i) rest)%io
  end.

Definition test_avalai_translation (servers : nat -> endpoint)
  : io unit :=
  (print (u "🧪 Testing AvalaAI Translation API") ;;
   print (repeat 61%N 50) ;;
   cases_for servers 1 test_cases ;;
   print ([10%N] ++ u "🏁 Test completed!"))%io.

(** The call at lines 136 to 141. *)
Definition connectivity_request : request :=
  {| url := BASE_URL ++ u "/responses";
     headers := request_headers;
     payload :=
       JObj [ (u "model", JStr (u "gemini-2.5-flash-lite"));
              (u "input", JStr (u "Hello, world!")) ];
     timeout := Some 10%Z |}.

Definition test_api_connectivity (server : endpoint) : io unit :=
  (print (u "🔗 Testing API connectivity...") ;;
   try_except
     (response <- lift (requests_post connectivity_request server) ;;
      print (u "Status: " ++ str_Z (status_code response)) ;;
      (if (status_code response =? 401)%Z then
         print (u "❌ API Key is invalid or expired")
       else if (status_code response =? 200)%Z then
         print (u "✅ API Key is valid")
       else
         print (u "⚠️  Unexpected status code: "
                  ++ str_Z (status_code response))) ;;
      body <- lift (response_json response) ;;
      print (u "Response: " ++ str_json body))
     (fun e => Some (print (u "❌ Connection failed: " ++ str_exn e))))%io.

(** The script body; [probe] answers the connectivity check. *)
Definition main (probe : endpoint) (servers : nat -> endpoint)
  : io unit :=
  (print (u "🤖 AvalaAI Translation API Test") ;;
   print (u "================================") ;;
   test_api_connectivity probe ;;
   print [] ;;
   test_avalai_translation servers)%io.
End Environment.

End AiPy.

(* ================================================================== *)
(** * api.py: the one-shot translation *)

Module ApiPy.

Definition persian_text : pystr := u "ماکسیمم دوز هیدرورلازین".

Section Environment.
(** The bearer token, and the formatting of values and exceptions, as in
    ai.py. *)
Variable API_KEY : pystr.
Variable str_json : json -> pystr.
Variable str_exn : exn -> pystr.

(** The call at line 31. *)
Definition api_request : request :=
  {| url := u "https://api.avalai.ir/v1/chat/completions";
     headers :=
       [ (u "Authorization", u "Bearer " ++ API_KEY);
         (u "Content-Type", u "application/json") ];
     payload :=
       JObj [ (u "model", JStr (u "gemini-2.5-flash-lite"));
              (u "messages",
               JArr [ JObj [ (u "role", JStr (u "system"));
                             (u "content",
                              JStr (u "Translate all user input Persian medical text to clear, precise English. Return only English, nothing else.")) ];
                      JObj [ (u "role", JStr (u "user"));
                             (u "content", JStr persian_text) ] ]) ];
     timeout := None |}.

(** [print(label, v)] of a decoded value: a string prints as itself. *)
Definition show (v : json) : pystr :=
  match v with
  | JStr s => s
  | _ => str_json v
  end.

(** The script body. *)
Definition main (server : endpoint) : io unit :=
  (response <- lift (requests_post api_request server) ;;
   print (u "Status: " ++ str_Z (status_code response)) ;;
   print (u "Body: " ++ text response) ;;
   if ok response then
     data <- lift (response_json response) ;;
     try_except
       (translation <-
          lift (choices <- getitem data (u "choices") ;;
                first <- getitem0 choices ;;
                message <- getitem first (u "message") ;;
                getitem message (u "content"))%result ;;
        print (u "TRANSLATED: " ++ show translation))
       (fun e =>
          Some (print (u "ERROR extracting translation: " ++ str_exn e)))
   else print (u "FAIL!"))%io.
End Environment.

End ApiPy.

(* ================================================================== *)
(** * Reference notions for the traversal properties *)

(** The number of entries met by a descent that lists every directory it
    can, keeps the entries satisfying [shown] and enters the kept ones. *)
Fixpoint count_entries (shown : entry -> bool) (n : node) : nat :=
  match n with
  | Dir (Some l) =>
    list_sum (map (fun e => if shown e then S (count_entries shown (snd e))
                            else 0) l)
  | _ => 0
  end.

(** Whether that descent meets a directory that cannot be listed. *)
Fixpoint denied (shown : entry -> bool) (n : node) : bool :=
  match n with
  | Dir (Some l) => existsb (fun e => shown e && denied shown (snd e)) l
  | Dir None => true
  | _ => false
  end.

(** [root] is a directory, and every directory that the descent meets
    can be listed. *)
Definition listable (shown : entry -> bool) (root : node) : Prop :=
  isdir root = true /\ denied shown root = false.


(** The display of one directory level, given the display [sub e p] of the
    subtree of entry [e] under prefix [p] and the text [label e] that
    follows the connector. *)
Section Layout.
Variable label : entry -> pystr.
Variable sub : entry -> pystr -> list pystr.

Definition is_last (rest : list entry) : bool :=
  match rest with [] => true | _ :: _ => false end.

Fixpoint layout (prefix : pystr) (es : list entry) : list pystr :=
  match es with
  | [] => []
  | e :: rest =>
    (prefix ++ (if is_last rest then corner else branch) ++ label e)
      :: sub e (prefix ++ (if is_last rest then blank else bar))
      ++ layout prefix rest
  end.
End Layout.

(** The display of a whole tree for a given selection of entries; a
    directory that cannot be listed displays nothing. *)
Fixpoint walk (select : list entry -> list entry) (label : entry -> pystr)
         (fuel : nat) (n : node) (prefix : pystr) : list pystr :=
  match fuel with
  | O => []
  | S fuel' =>
    match n with
    | Dir (Some l) =>
      layout label (fun e => walk select label fuel' (snd e)) prefix
             (select l)
    | _ => []
    end
  end.









(** An object that is neither a directory nor a regular file. *)
Definition is_other (n : node) : bool := negb (isdir n) && negb (isfile n).

(** The three printers, and the entries each displays for a listing, in
    display order. *)
Inductive variant : Type := Console | Image | Icons.

Definition displayed (lower : pystr -> pystr) (v : variant)
           (listing : list entry) : list entry :=
  match v with
  | Console => TreePy.entries listing
  | Image => TeePy.entries lower listing
  | Icons => ZprjTree.entries listing
  end.

(** Entries in the order of their names, compared as Python compares
    strings, and in the order of their lower-cased names. *)
Definition lexicographic (es : list entry) : Prop :=
  StronglySorted (fun a b => str_leb (fst a) (fst b) = true) es.

Definition caseless (lower : pystr -> pystr) (es : list entry) : Prop :=
  StronglySorted (fun a b => str_leb (lower (fst a)) (lower (fst b)) = true)
                 es.

(** Directories before everything else, each group in the given order. *)
Definition directories_first (ordered : list entry -> Prop)
           (es : list entry) : Prop :=
  exists ds fs,
    es = ds ++ fs
    /\ Forall (fun e => isdir (snd e) = true) ds
    /\ Forall (fun e => isdir (snd e) = false) fs
    /\ ordered ds /\ ordered fs.

(** The ordering the specification states, where [ordered v] is what
    "lexicographic" means for printer [v]: every printer orders a listing
    lexicographically or directories first, the console printer
    lexicographically, and exactly one printer directories first. *)
Definition ordering_as_specified (lower : pystr -> pystr)
           (ordered : variant -> list entry -> Prop) : Prop :=
  (forall v listing,
     ordered v (displayed lower v listing)
     \/ directories_first (ordered v) (displayed lower v listing))
  /\ (forall listing, ordered Console (displayed lower Console listing))
  /\ (exists v,
        (forall listing,
           directories_first (ordered v) (displayed lower v listing))
        /\ forall v',
             (forall listing,
                directories_first (ordered v') (displayed lower v' listing))
             -> v' = v).

(** The [requests.post] calls of ai.py, and of both scripts. *)
Definition ai_posts (API_KEY : pystr) : list request :=
  AiPy.connectivity_request API_KEY
  :: map (AiPy.translation_request API_KEY) AiPy.test_cases.

Definition all_posts (API_KEY : pystr) : list request :=
  ai_posts API_KEY ++ [ApiPy.api_request API_KEY].

(** A computation that ends, by returning or by raising, and one that
    returns. *)
Definition ends (A : Type) (m : io A) : Prop :=
  match outcome m with
  | Ok _ | Raised _ => True
  | _ => False
  end.

Definition returns (A : Type) (m : io A) : Prop :=
  match outcome m with
  | Ok _ => True
  | _ => False
  end.

(* ================================================================== *)
(** * Fixtures *)

(** The fixture used to try the statements below: a project directory
    with a source folder, a repository folder that cannot be listed, and
    a few files. *)
Definition sample_tree : node :=
  Dir (Some [ (u "b.txt", File);
              (u "src", Dir (Some [ (u "z", File);
                                    (u "a", Dir (Some [])) ]));
              (u ".git", Dir None);
              (u "B", File);
              (u "a.txt", File) ]).

(** A directory with a subdirectory that cannot be listed. *)
Definition locked_tree : node :=
  Dir (Some [ (u "a", File); (u "private", Dir None); (u "z", File) ]).

(** Responses of the endpoint: a quoted translation, and a refusal of
    the API key. *)
Definition hello_response (body : pystr) : response :=
  {| status_code := 200;
     text := body;
     json_body :=
       Some (JObj [(u "output_text", JStr ([34%N] ++ u "hello" ++ [34%N]))])
  |}.

Definition unauthorized_response : response :=
  {| status_code := 401; text := u "Unauthorized"; json_body := None |}.

(** A font whose glyphs are all seven pixels wide and ten pixels high. *)
Definition sample_font : TeePy.font :=
  {| TeePy.getlength := fun s => inject_Z (7 * Z.of_nat (length s));
     TeePy.getbbox := fun s => (0, 0, 7 * Z.of_nat (length s), 10)%Z |}.

(** [str.lower] on names written in ASCII. *)
Definition ascii_lower (s : pystr) : pystr :=
  map (fun c => if ((65 <=? c) && (c <=? 90))%N then (c + 32)%N else c) s.

(* ================================================================== *)
(** * Basic facts *)

Lemma str_eqb_eq (a b : pystr) : str_eqb a b = true <-> a = b.
Proof.
  revert b; induction a as [|x a IH]; intros [|y b]; simpl;
    try (split; [discriminate | discriminate]); try tauto.
  rewrite andb_true_iff, N.eqb_eq, IH.
  split; [intros [-> ->]; reflexivity | intros H; inversion H; auto].
Qed.

Lemma str_eqb_refl (a : pystr) : str_eqb a a = true.
Proof. apply str_eqb_eq; reflexivity. Qed.

Lemma str_leb_refl (a : pystr) : str_leb a a = true.
Proof.
  induction a as [|x a IH]; simpl; auto.
  rewrite N.ltb_irrefl; assumption.
Qed.

Lemma str_leb_total (a b : pystr) : str_leb a b = true \/ str_leb b a = true.
Proof.
  revert b; induction a as [|x a IH]; intros [|y b]; simpl; auto.
  destruct (N.ltb_spec x y), (N.ltb_spec y x); auto; lia.
Qed.

Lemma str_leb_trans (a b c : pystr) :
  str_leb a b = true -> str_leb b c = true -> str_leb a c = true.
Proof.
  revert b c; induction a as [|x a IH]; intros [|y b] [|z c]; simpl; auto;
    try discriminate.
  destruct (N.ltb_spec x y), (N.ltb_spec y x), (N.ltb_spec y z),
    (N.ltb_spec z y), (N.ltb_spec x z), (N.ltb_spec z x);
    try discriminate; try lia; auto.
  apply IH.
Qed.




(* ================================================================== *)
(** * Facts about the stable sort *)

Section SortFacts.
Variable A : Type.
Variable leb : A -> A -> bool.

Lemma insert_perm (x : A) (l : list A) :
  Permutation (insert leb x l) (x :: l).
Proof.
  induction l as [|y l IH]; simpl; auto.
  destruct (leb x y); auto.
  rewrite IH; apply perm_swap.
Qed.

Lemma sort_perm (l : list A) : Permutation (sort leb l) l.
Proof.
  induction l as [|x l IH]; simpl; auto.
  rewrite insert_perm; auto.
Qed.

Lemma sort_In (l : list A) (x : A) : In x (sort leb l) <-> In x l.
Proof.
  split; apply Permutation_in;
    [apply sort_perm | apply Permutation_sym, sort_perm].
Qed.

Lemma sort_length (l : list A) : length (sort leb l) = length l.
Proof. apply Permutation_length, sort_perm. Qed.

Lemma insert_first (x : A) (l : list A) :
  Forall (lep leb x) l -> insert leb x l = x :: l.
Proof.
  destruct l as [|y l]; simpl; auto.
  intros H; inversion H as [|? ? Hy _]; subst.
  unfold lep in Hy; rewrite Hy; reflexivity.
Qed.

Hypothesis leb_total : forall a b, leb a b = true \/ leb b a = true.
Hypothesis leb_trans :
  forall a b c, leb a b = true -> leb b c = true -> leb a c = true.

Lemma insert_sorted (x : A) (l : list A) :
  StronglySorted (lep leb) l -> StronglySorted (lep leb) (insert leb x l).
Proof.
  induction 1 as [|y l Hs IH Hy]; simpl.
  - repeat constructor.
  - destruct (leb x y) eqn:E.
    + constructor; [constructor; assumption|].
      constructor; [exact E|].
      eapply Forall_impl; [|exact Hy].
      intros z Hz; eapply leb_trans; eauto.
    + constructor; [assumption|].
      eapply Permutation_Forall;
        [apply Permutation_sym, insert_perm|].
      constructor; [|assumption].
      destruct (leb_total x y) as [H|H]; [congruence | exact H].
Qed.

Lemma sort_sorted (l : list A) : StronglySorted (lep leb) (sort leb l).
Proof.
  induction l as [|x l IH]; simpl; [constructor | apply insert_sorted, IH].
Qed.

Lemma insert_filter (f : A -> bool) (x : A) (l : list A) :
  StronglySorted (lep leb) l ->
  filter f (insert leb x l)
  = if f x then insert leb x (filter f l) else filter f l.
Proof.
  induction 1 as [|y l Hs IH Hy]; simpl.
  - destruct (f x); reflexivity.
  - destruct (leb x y) eqn:E; simpl.
    + destruct (f x) eqn:Fx; [|reflexivity].
      symmetry.
      change (insert leb x (filter f (y :: l)) = x :: filter f (y :: l)).
      apply insert_first.
      apply Forall_forall; intros z Hz.
      apply filter_In in Hz; destruct Hz as [[<-|Hz] _]; [exact E|].
      rewrite Forall_forall in Hy.
      eapply leb_trans; [exact E | apply Hy, Hz].
    + rewrite IH.
      destruct (f y), (f x); simpl; try rewrite E; reflexivity.
Qed.

(** Filtering commutes with sorting: a stable sort keeps the relative
    order of the entries that survive the filter. *)
Lemma sort_filter (f : A -> bool) (l : list A) :
  filter f (sort leb l) = sort leb (filter f l).
Proof.
  induction l as [|x l IH]; simpl; auto.
  rewrite insert_filter by apply sort_sorted.
  rewrite IH; destruct (f x); reflexivity.
Qed.
End SortFacts.

(* ================================================================== *)
(** * Facts about lists and trees *)

Lemma existsb_perm (A : Type) (f : A -> bool) (l l' : list A) :
  Permutation l l' -> existsb f l = existsb f l'.
Proof.
  induction 1; simpl; auto.
  - congruence.
  - destruct (f x), (f y); reflexivity.
  - congruence.
Qed.

Lemma existsb_filter (A : Type) (f g : A -> bool) (l : list A) :
  existsb f (filter g l) = existsb (fun x => g x && f x) l.
Proof.
  induction l as [|x l IH]; simpl; auto.
  destruct (g x); simpl; rewrite IH; reflexivity.
Qed.

Lemma list_sum_perm (l l' : list nat) :
  Permutation l l' -> list_sum l = list_sum l'.
Proof. induction 1; simpl; lia. Qed.

Lemma list_sum_filter (A : Type) (f : A -> bool) (g : A -> nat)
      (l : list A) :
  list_sum (map g (filter f l))
  = list_sum (map (fun x => if f x then g x else 0) l).
Proof.
  induction l as [|x l IH]; simpl; auto.
  destruct (f x); simpl; rewrite IH; reflexivity.
Qed.

Lemma height_child (l : list entry) (e : entry) :
  In e l -> height (snd e) < height (Dir (Some l)).
Proof.
  intros H; simpl.
  assert (Hmax := proj1 (list_max_le (map (fun e => height (snd e)) l) _)
                        (Nat.le_refl _)).
  rewrite Forall_forall in Hmax.
  specialize (Hmax (height (snd e)) (in_map _ _ _ H)); lia.
Qed.

Lemma height_pos (n : node) : 1 <= height n.
Proof. destruct n as [| |[l|]]; simpl; lia. Qed.

Lemma is_last_index (i : nat) (rest : list entry) :
  (i =? i + S (length rest) - 1) = is_last rest.
Proof.
  destruct rest; simpl.
  - replace (i + 1 - 1) with i by lia; apply Nat.eqb_refl.
  - apply Nat.eqb_neq; lia.
Qed.

(* ================================================================== *)
(** * Facts about the reference display *)

Section LayoutFacts.
Variable label : entry -> pystr.

Lemma layout_ext (sub1 sub2 : entry -> pystr -> list pystr)
      (prefix : pystr) (es : list entry) :
  (forall e p, In e es -> sub1 e p = sub2 e p) ->
  layout label sub1 prefix es = layout label sub2 prefix es.
Proof.
  induction es as [|e es IH]; simpl; intros H; auto.
  rewrite H by auto; rewrite IH; auto.
Qed.

Lemma layout_length (sub : entry -> pystr -> list pystr)
      (c : entry -> nat) (prefix : pystr) (es : list entry) :
  (forall e p, In e es -> length (sub e p) = c e) ->
  length (layout label sub prefix es)
  = list_sum (map (fun e => S (c e)) es).
Proof.
  induction es as [|e es IH]; simpl; intros H; auto.
  rewrite length_app, H, IH by auto; reflexivity.
Qed.



Lemma layout_own (sub : entry -> pystr -> list pystr) (prefix : pystr)
      (es : list entry) (e : entry) :
  In e es ->
  exists c, is_connector c /\
    In (prefix ++ c ++ label e) (layout label sub prefix es).
Proof.
  induction es as [|e' es IH]; simpl; [tauto|].
  intros [->|H].
  - destruct (is_last es); eexists; (split; [|left; reflexivity]);
      [left | right]; reflexivity.
  - destruct (IH H) as (c & Hc & Hin); exists c; split; auto.
    right; apply in_or_app; auto.
Qed.

End LayoutFacts.

Section WalkFacts.
Variable select : list entry -> list entry.
Variable label : entry -> pystr.
Variable shown : entry -> bool.
Hypothesis select_perm :
  forall l, Permutation (select l) (filter shown l).

Lemma select_In (l : list entry) (e : entry) :
  In e (select l) <-> In e l /\ shown e = true.
Proof.
  rewrite <- filter_In; split; apply Permutation_in;
    [apply select_perm | apply Permutation_sym, select_perm].
Qed.

Lemma select_height (l : list entry) (e : entry) (fuel : nat) :
  In e (select l) -> height (Dir (Some l)) <= S fuel ->
  height (snd e) <= fuel.
Proof.
  intros He Hf; apply select_In in He; destruct He as [He _].
  apply height_child in He; lia.
Qed.

(** The display does not depend on the recursion bound once the bound
    covers the height of the tree. *)
Lemma walk_fuel (f1 f2 : nat) (n : node) (p : pystr) :
  height n <= f1 -> height n <= f2 ->
  walk select label f1 n p = walk select label f2 n p.
Proof.
  revert f2 n p; induction f1 as [|f1 IH]; intros f2 n p H1 H2.
  - pose proof (height_pos n); lia.
  - destruct f2 as [|f2]; [pose proof (height_pos n); lia|].
    destruct n as [| |[l|]]; simpl; auto.
    apply layout_ext; intros e q He.
    apply IH; eapply select_height; eauto.
Qed.

(** One line for each kept entry. *)
Lemma walk_length (fuel : nat) (n : node) (p : pystr) :
  height n <= fuel ->
  length (walk select label fuel n p) = count_entries shown n.
Proof.
  revert n p; induction fuel as [|fuel IH]; intros n p Hf.
  - pose proof (height_pos n); lia.
  - destruct n as [| |[l|]]; simpl; auto.
    rewrite layout_length
      with (c := fun e => count_entries shown (snd e)).
    + cbv beta.
      etransitivity;
        [apply list_sum_perm, Permutation_map, select_perm|].
      apply list_sum_filter.
    + intros e q He; apply IH; eapply select_height; eauto.
Qed.

End WalkFacts.

(* ================================================================== *)
(** * Facts about reading lines back *)






Section ParseFacts.
Variable select : list entry -> list entry.
Variable label : entry -> pystr.
Variable shown : entry -> bool.
Hypothesis select_perm :
  forall l, Permutation (select l) (filter shown l).


End ParseFacts.

(* ================================================================== *)
(** * Facts about the effects *)

Lemma bind_print (s : pystr) (k : unit -> io unit) :
  bind (print s) k = (s :: stdout (k tt), outcome (k tt)).
Proof. unfold bind, print; simpl; destruct (k tt); reflexivity. Qed.

Lemma bind_ret (A B : Type) (a : A) (k : A -> io B) : bind (ret a) k = k a.
Proof. unfold bind, ret; destruct (k a); reflexivity. Qed.

Lemma bind_ok (A B : Type) (m : io A) (a : A) (k : A -> io B) :
  outcome m = Ok a ->
  bind m k = (stdout m ++ stdout (k a), outcome (k a)).
Proof.
  destruct m as [out r]; simpl; intros ->; simpl.
  destruct (k a); reflexivity.
Qed.

Lemma bind_raised (A B : Type) (m : io A) (e : exn) (k : A -> io B) :
  outcome m = Raised e -> bind m k = (stdout m, Raised e).
Proof. destruct m as [out r]; simpl; intros ->; reflexivity. Qed.

Lemma walk_nondir (select : list entry -> list entry)
      (label : entry -> pystr) (fuel : nat) (n : node) (p : pystr) :
  isdir n = false -> walk select label fuel n p = [].
Proof. destruct fuel, n; simpl; auto; discriminate. Qed.

Lemma denied_nondir (shown : entry -> bool) (n : node) :
  isdir n = false -> denied shown n = false.
Proof. destruct n; simpl; auto; discriminate. Qed.

(* ================================================================== *)
(** * tree.py refines the reference display *)

Lemma console_select (l : list entry) :
  Permutation (TreePy.entries l) (filter TreePy.shown l).
Proof. apply sort_perm. Qed.

Lemma existsb_false_In (A : Type) (f : A -> bool) (l : list A) (x : A) :
  existsb f l = false -> In x l -> f x = false.
Proof.
  intros H Hx; destruct (f x) eqn:E; auto.
  rewrite <- H; symmetry; apply existsb_exists; eauto.
Qed.

Lemma tree_for_run (rec : node -> pystr -> io unit) (prefix : pystr)
      (len : nat) (es : list entry) (i : nat) :
  len = i + length es ->
  (forall e p, In e es -> isdir (snd e) = true ->
     outcome (rec (snd e) p)
     = if denied TreePy.shown (snd e) then Raised PermissionError
       else Ok tt) ->
  outcome (TreePy.tree_for rec prefix len i es)
  = (if existsb (fun e => denied TreePy.shown (snd e)) es
     then Raised PermissionError else Ok tt)
  /\ (existsb (fun e => denied TreePy.shown (snd e)) es = false ->
      stdout (TreePy.tree_for rec prefix len i es)
      = layout fst (fun e p => if isdir (snd e) then stdout (rec (snd e) p)
                               else []) prefix es).
Proof.
  revert i; induction es as [|[name full] rest IH]; intros i Hlen Hrec.
  - simpl; auto.
  - simpl length in Hlen; subst len.
    cbn [TreePy.tree_for existsb layout fst snd].
    rewrite is_last_index, bind_print.
    destruct (IH (S i)) as [IHo IHs];
      [lia | intros; apply Hrec; simpl; auto |].
    replace (S i + length rest) with (i + S (length rest)) in IHo, IHs
      by lia.
    destruct (isdir full) eqn:Hd.
    + specialize (Hrec (name, full)
                       (prefix ++ (if is_last rest then blank else bar))
                       (or_introl eq_refl) Hd).
      simpl snd in Hrec.
      destruct (denied TreePy.shown full) eqn:Hden.
      * rewrite (bind_raised _ _ Hrec); simpl; split;
          [reflexivity | discriminate].
      * rewrite (bind_ok _ _ Hrec); simpl.
        split; [exact IHo|].
        intros Hex; rewrite IHs by assumption; reflexivity.
    + rewrite bind_ret, (denied_nondir _ _ Hd); simpl.
      split; [exact IHo|].
      intros Hex; rewrite IHs by assumption; reflexivity.
Qed.

(** How a run of [tree] ends, and what it prints when it returns. *)
Lemma console_run (fuel : nat) (n : node) (p : pystr) :
  height n <= fuel -> isdir n = true ->
  outcome (TreePy.tree_rec fuel n p)
  = (if denied TreePy.shown n then Raised PermissionError else Ok tt)
  /\ (denied TreePy.shown n = false ->
      stdout (TreePy.tree_rec fuel n p)
      = walk TreePy.entries fst fuel n p).
Proof.
  revert n p; induction fuel as [|fuel IH]; intros n p Hf Hd.
  - pose proof (height_pos n); lia.
  - destruct n as [| |[l|]]; try discriminate;
      [|simpl; split; [reflexivity | discriminate]].
    assert (Hex : existsb (fun e => denied TreePy.shown (snd e))
                          (TreePy.entries l)
                  = denied TreePy.shown (Dir (Some l))).
    { rewrite (existsb_perm _ (console_select l)), existsb_filter.
      reflexivity. }
    assert (Hsub : forall e, In e (TreePy.entries l) ->
                             height (snd e) <= fuel).
    { intros e He.
      eapply (select_height _ _ console_select); eauto. }
    destruct (tree_for_run (TreePy.tree_rec fuel) p
                (len := length (TreePy.entries l))
                (TreePy.entries l) 0 eq_refl) as [Ho Hs].
    { intros e q He Hde; apply IH; auto. }
    change (TreePy.tree_rec (S fuel) (Dir (Some l)) p)
      with (bind (lift (Ok l))
                 (fun listing =>
                    TreePy.tree_for (TreePy.tree_rec fuel) p
                      (length (TreePy.entries listing)) 0
                      (TreePy.entries listing))).
    rewrite (@bind_ok _ _ (lift (Ok l)) l _ eq_refl); simpl stdout at 1;
      simpl outcome; simpl app.
    rewrite <- Hex; split; [exact Ho|].
    intros Hnd; rewrite (Hs Hnd); simpl.
    apply layout_ext; intros e q He.
    destruct (isdir (snd e)) eqn:Hde.
    + apply IH; auto.
      eapply existsb_false_In in Hnd; eauto.
    + symmetry; apply walk_nondir; assumption.
Qed.

(* ================================================================== *)
(** * tee.py refines the reference display *)

Lemma image_select (lower : pystr -> pystr) (l : list entry) :
  Permutation (TeePy.entries lower l) (filter TeePy.keep l).
Proof. apply sort_perm. Qed.

Lemma build_tree_for_run (rec : node -> pystr -> result (list pystr))
      (sub : entry -> pystr -> list pystr) (prefix : pystr) (len : nat)
      (es : list entry) (i : nat) (lines : list pystr) :
  len = i + length es ->
  (forall e p, In e es -> isdir (snd e) = true ->
     rec (snd e) p
     = if denied TeePy.keep (snd e) then Raised PermissionError
       else Ok (sub e p)) ->
  (forall e p, In e es -> isdir (snd e) = false -> sub e p = []) ->
  TeePy.build_tree_for rec prefix len i es lines
  = if existsb (fun e => denied TeePy.keep (snd e)) es
    then Raised PermissionError
    else Ok (lines ++ layout fst sub prefix es).
Proof.
  revert i lines; induction es as [|[name full] rest IH];
    intros i lines Hlen Hrec Hsub.
  - simpl; rewrite app_nil_r; reflexivity.
  - simpl length in Hlen; subst len.
    cbn [TeePy.build_tree_for existsb layout fst snd].
    rewrite is_last_index.
    destruct (isdir full) eqn:Hd.
    + rewrite (Hrec (name, full) _ (or_introl eq_refl) Hd); simpl snd.
      destruct (denied TeePy.keep full); simpl; [reflexivity|].
      rewrite IH; [| lia | intros; apply Hrec; simpl; auto
                   | intros; apply Hsub; simpl; auto].
      destruct (existsb (fun e => denied TeePy.keep (snd e)) rest);
        [reflexivity|].
      rewrite <- !app_assoc; reflexivity.
    + rewrite (denied_nondir TeePy.keep _ Hd); simpl.
      rewrite IH; [| lia | intros; apply Hrec; simpl; auto
                   | intros; apply Hsub; simpl; auto].
      destruct (existsb (fun e => denied TeePy.keep (snd e)) rest);
        [reflexivity|].
      rewrite (Hsub (name, full) _ (or_introl eq_refl) Hd).
      rewrite <- !app_assoc; reflexivity.
Qed.

(** How a call of [build_tree] ends, and what it returns. *)
Lemma image_run (lower : pystr -> pystr) (fuel : nat) (n : node)
      (p : pystr) :
  height n <= fuel -> isdir n = true ->
  TeePy.build_tree_rec lower fuel n p
  = if denied TeePy.keep n then Raised PermissionError
    else Ok (walk (TeePy.entries lower) fst fuel n p).
Proof.
  revert n p; induction fuel as [|fuel IH]; intros n p Hf Hd.
  - pose proof (height_pos n); lia.
  - destruct n as [| |[l|]]; try discriminate; [|reflexivity].
    cbn [TeePy.build_tree_rec listdir rbind walk].
    rewrite build_tree_for_run
      with (sub := fun e => walk (TeePy.entries lower) fst fuel (snd e)).
    + rewrite (existsb_perm _ (image_select lower l)), existsb_filter.
      reflexivity.
    + reflexivity.
    + intros e q He Hde; apply IH; auto.
      eapply (select_height _ _ (image_select lower)); eauto.
    + intros e q _ Hde; apply walk_nondir; assumption.
Qed.

(* ================================================================== *)
(** * zprj_tree.py refines the reference display *)

Lemma name_leb_total (a b : entry) :
  str_leb (fst a) (fst b) = true \/ str_leb (fst b) (fst a) = true.
Proof. apply str_leb_total. Qed.

Lemma name_leb_trans (a b c : entry) :
  str_leb (fst a) (fst b) = true -> str_leb (fst b) (fst c) = true ->
  str_leb (fst a) (fst c) = true.
Proof. apply str_leb_trans. Qed.

Lemma filter_disjoint_app (A : Type) (f g : A -> bool) (l : list A) :
  (forall x, f x = true -> g x = false) ->
  Permutation (filter f l ++ filter g l) (filter (fun x => f x || g x) l).
Proof.
  intros H; induction l as [|x l IH]; simpl; auto.
  destruct (f x) eqn:Fx; simpl.
  - rewrite (H _ Fx); apply perm_skip, IH.
  - destruct (g x); auto.
    apply Permutation_sym, Permutation_cons_app, Permutation_sym, IH.
Qed.

Lemma icon_disjoint (e : entry) :
  ZprjTree.is_dir e = true -> ZprjTree.is_file e = false.
Proof.
  unfold ZprjTree.is_dir, ZprjTree.is_file.
  destruct (snd e); simpl; auto; discriminate.
Qed.

Lemma icon_select (l : list entry) :
  Permutation (ZprjTree.entries l) (filter ZprjTree.shown l).
Proof.
  unfold ZprjTree.entries, ZprjTree.shown.
  rewrite (filter_disjoint_app _ _ _ icon_disjoint).
  rewrite (sort_filter ZprjTree.name_leb name_leb_total name_leb_trans).
  apply sort_perm.
Qed.

Lemma print_tree_for_run (rec : node -> pystr -> io unit)
      (sub : entry -> pystr -> list pystr) (prefix : pystr) (total : nat)
      (es : list entry) (i : nat) :
  total = i + length es ->
  (forall e p, In e es -> isdir (snd e) = true ->
     rec (snd e) p = (sub e p, Ok tt)) ->
  (forall e p, In e es -> isdir (snd e) = false -> sub e p = []) ->
  ZprjTree.print_tree_for rec prefix total i es
  = (layout ZprjTree.label sub prefix es, Ok tt).
Proof.
  revert i; induction es as [|[name full] rest IH];
    intros i Hlen Hrec Hsub.
  - reflexivity.
  - simpl length in Hlen; subst total.
    cbn [ZprjTree.print_tree_for layout].
    rewrite is_last_index.
    rewrite IH; [| lia | intros; apply Hrec; simpl; auto
                 | intros; apply Hsub; simpl; auto].
    unfold ZprjTree.label; simpl fst; simpl snd.
    destruct (isdir full) eqn:Hd.
    + rewrite bind_print.
      rewrite (Hrec (name, full) _ (or_introl eq_refl) Hd).
      reflexivity.
    + rewrite (Hsub (name, full) _ (or_introl eq_refl) Hd).
      reflexivity.
Qed.

(** A run of [print_tree] on a directory returns, and prints the
    reference display. *)
Lemma icon_run (fuel : nat) (n : node) (p : pystr) :
  height n <= fuel -> isdir n = true ->
  ZprjTree.print_tree_rec fuel n p
  = (walk ZprjTree.entries ZprjTree.label fuel n p, Ok tt).
Proof.
  revert n p; induction fuel as [|fuel IH]; intros n p Hf Hd.
  - pose proof (height_pos n); lia.
  - destruct n as [| |[l|]]; try discriminate; [|reflexivity].
    cbn [ZprjTree.print_tree_rec listdir walk].
    rewrite (@bind_ok _ _ (lift (Ok l)) l _ eq_refl).
    cbn [stdout outcome lift fst snd app].
    rewrite print_tree_for_run
      with (sub := fun e => walk ZprjTree.entries ZprjTree.label fuel
                                 (snd e)).
    + reflexivity.
    + rewrite <- length_app; reflexivity.
    + intros e q He Hde; apply IH; auto.
      eapply (select_height _ _ icon_select); eauto.
    + intros e q _ Hde; apply walk_nondir; assumption.
Qed.

(* ================================================================== *)
(** * The recursion bound is immaterial *)

Lemma tree_for_ext (rec1 rec2 : node -> pystr -> io unit) (prefix : pystr)
      (len : nat) (es : list entry) (i : nat) :
  (forall e p, In e es -> isdir (snd e) = true ->
     rec1 (snd e) p = rec2 (snd e) p) ->
  TreePy.tree_for rec1 prefix len i es = TreePy.tree_for rec2 prefix len i es.
Proof.
  revert i; induction es as [|[name full] rest IH]; intros i H; auto.
  cbn [TreePy.tree_for].
  rewrite (IH (S i)) by (intros; apply H; simpl; auto).
  destruct (isdir full) eqn:Hd; auto.
  rewrite (H (name, full) _ (or_introl eq_refl) Hd); reflexivity.
Qed.

(** Any bound that covers the height of the tree gives the run of
    [tree]. *)
Lemma tree_rec_fuel (fuel : nat) (n : node) (p : pystr) :
  height n <= fuel -> TreePy.tree_rec fuel n p = TreePy.tree n p.
Proof.
  unfold TreePy.tree.
  assert (H : forall f1 f2 m q, height m <= f1 -> height m <= f2 ->
                TreePy.tree_rec f1 m q = TreePy.tree_rec f2 m q).
  { induction f1 as [|f1 IH]; intros f2 m q H1 H2;
      [pose proof (height_pos m); lia|].
    destruct f2 as [|f2]; [pose proof (height_pos m); lia|].
    destruct m as [| |[l|]]; auto.
    cbn [TreePy.tree_rec listdir].
    rewrite !(@bind_ok _ _ (lift (Ok l)) l _ eq_refl).
    rewrite (@tree_for_ext (TreePy.tree_rec f1) (TreePy.tree_rec f2));
      auto.
    intros e q' He _.
    apply IH; eapply (select_height _ _ console_select); eauto. }
  intros Hf; apply H; auto.
Qed.

Lemma build_tree_rec_fuel (lower : pystr -> pystr) (fuel : nat) (n : node)
      (p : pystr) :
  height n <= fuel ->
  TeePy.build_tree_rec lower fuel n p = TeePy.build_tree lower n p.
Proof.
  intros Hf; unfold TeePy.build_tree.
  destruct (isdir n) eqn:Hd.
  - rewrite !image_run by auto.
    destruct (denied TeePy.keep n); auto.
    f_equal; apply (walk_fuel _ _ _ (image_select lower)); auto.
  - destruct fuel; [pose proof (height_pos n); lia|].
    destruct n; try discriminate; reflexivity.
Qed.

Lemma print_tree_rec_fuel (fuel : nat) (n : node) (p : pystr) :
  height n <= fuel ->
  ZprjTree.print_tree_rec fuel n p = ZprjTree.print_tree n p.
Proof.
  intros Hf; unfold ZprjTree.print_tree.
  destruct (isdir n) eqn:Hd.
  - rewrite !icon_run by auto.
    f_equal; apply (walk_fuel _ _ _ icon_select); auto.
  - destruct fuel; [pose proof (height_pos n); lia|].
    destruct n; try discriminate; reflexivity.
Qed.

(** The three entry points end by returning or by raising. *)
Lemma printers_end (lower : pystr -> pystr) (n : node) (p : pystr) :
  ends (TreePy.tree n p)
  /\ ends (lift (TeePy.build_tree lower n p))
  /\ ends (ZprjTree.print_tree n p).
Proof.
  unfold ends, TreePy.tree, TeePy.build_tree, ZprjTree.print_tree.
  destruct (isdir n) eqn:Hd.
  - rewrite (proj1 (console_run n p (Nat.le_refl _) Hd)).
    rewrite (image_run lower n p (Nat.le_refl _) Hd).
    rewrite (icon_run n p (Nat.le_refl _) Hd); simpl.
    destruct (denied TreePy.shown n), (denied TeePy.keep n); simpl; auto.
  - destruct n; try discriminate; simpl; auto.
Qed.

(* ================================================================== *)
(** * Runs of the three printers from their entry points *)

Lemma console_returns (n : node) (p : pystr) :
  listable TreePy.shown n ->
  TreePy.tree n p = (walk TreePy.entries fst (height n) n p, Ok tt).
Proof.
  intros [Hd Hden]; unfold TreePy.tree.
  destruct (console_run n p (Nat.le_refl (height n)) Hd) as [Ho Hs].
  rewrite Hden in Ho; rewrite <- (Hs Hden), <- Ho.
  destruct (TreePy.tree_rec (height n) n p); reflexivity.
Qed.

Lemma image_returns (lower : pystr -> pystr) (n : node) (p : pystr) :
  listable TeePy.keep n ->
  TeePy.build_tree lower n p
  = Ok (walk (TeePy.entries lower) fst (height n) n p).
Proof.
  intros [Hd Hden]; unfold TeePy.build_tree.
  rewrite (image_run lower n p (Nat.le_refl (height n)) Hd), Hden.
  reflexivity.
Qed.

Lemma draw_for_length (line_height y : Z) (lines : list pystr) :
  length (TeePy.draw_for line_height y lines) = length lines.
Proof.
  revert y; induction lines as [|l lines IH]; intros y; simpl; auto.
Qed.

(* ================================================================== *)
(** * C1: one line per entry *)

(** C1, as stated, fails for the printer with icons: a directory whose only
    entry is a regular file called [node_modules] has no entry outside the
    exclusion set, yet one line is printed. *)
Lemma C1_counterexample :
  let root := Dir (Some [(u "node_modules", File)]) in
  length (stdout (ZprjTree.print_tree root [])) = 1
  /\ count_entries (fun e => negb (str_in (fst e) ZprjTree.SKIP)) root = 0
  /\ length (stdout (ZprjTree.print_tree root []))
     <> count_entries (fun e => negb (str_in (fst e) ZprjTree.SKIP)) root.
Proof.
  repeat split; try reflexivity.
  vm_compute; discriminate.
Qed.

(** C1, amended: on a root whose directories can all be listed, the
    console printer returns after printing one line for each entry whose
    name is not excluded; [build_tree] returns one line for each entry it
    keeps, and [tree_to_jpg] draws one more line, the name of the root; the
    printer with icons prints, on every root, one line for each directory
    outside its skip set and each regular file, whatever the name of the
    file. *)
Theorem C1_line_count (lower : pystr -> pystr)
        (truetype : option TeePy.font) (load_default : TeePy.font)
        (root : node) (prefix root_name output_file : pystr) :
  (listable TreePy.shown root ->
   outcome (TreePy.tree root prefix) = Ok tt
   /\ length (stdout (TreePy.tree root prefix))
      = count_entries TreePy.shown root)
  /\ (listable TeePy.keep root ->
      (exists lines,
         TeePy.build_tree lower root prefix = Ok lines
         /\ length lines = count_entries TeePy.keep root)
      /\ (exists img,
            outcome (TeePy.tree_to_jpg lower truetype load_default
                                       root_name root output_file) = Ok img
            /\ length (TeePy.texts img)
               = 1 + count_entries TeePy.keep root))
  /\ length (stdout (ZprjTree.print_tree root prefix))
     = count_entries ZprjTree.shown root.
Proof.
  repeat apply conj.
  - intros H; rewrite (console_returns prefix H); split; [reflexivity|].
    apply (walk_length _ _ _ console_select); auto.
  - intros H; split.
    + rewrite (image_returns lower prefix H); eexists; split;
        [reflexivity|].
      apply (walk_length _ _ _ (image_select lower)); auto.
    + unfold TeePy.tree_to_jpg.
      rewrite (image_returns lower [] H).
      unfold TeePy.render, TeePy.py_max; simpl.
      eexists; split; [reflexivity|]; simpl.
      rewrite draw_for_length.
      f_equal; apply (walk_length _ _ _ (image_select lower)); auto.
  - destruct (isdir root) eqn:Hd.
    + unfold ZprjTree.print_tree.
      rewrite (icon_run root prefix (Nat.le_refl (height root)) Hd); simpl.
      apply (walk_length _ _ _ icon_select); auto.
    + destruct root; try discriminate; reflexivity.
Qed.

Lemma C1_line_count_witness :
  listable TreePy.shown sample_tree
  /\ outcome (TreePy.tree sample_tree []) = Ok tt
  /\ length (stdout (TreePy.tree sample_tree []))
     = count_entries TreePy.shown sample_tree.
Proof.
  split; [split; reflexivity|].
  apply (proj1 (C1_line_count ascii_lower None sample_font sample_tree
                              [] [] [])).
  split; reflexivity.
Defined.

(* ================================================================== *)
(** * C2: connectors and continuation prefixes *)




Section LevelFacts.
Variable label : entry -> pystr.
Variable sub : entry -> pystr -> list pystr.
Variable prefix : pystr.


End LevelFacts.










(* ================================================================== *)
(** * C3: indentation and nesting depth *)








(* ================================================================== *)
(** * C6: directories that cannot be listed *)

Lemma denied_isdir (shown : entry -> bool) (n : node) :
  denied shown n = true -> isdir n = true.
Proof. destruct n; simpl; auto. Qed.

(** C6: when the descent meets a directory whose listing is refused, the
    console printer and the image printer end with the permission error,
    which nothing catches; the printer with icons returns normally from
    every directory, and the refused directory contributes no line. *)
Theorem C6_permission_errors (lower : pystr -> pystr)
        (truetype : option TeePy.font) (load_default : TeePy.font)
        (root : node) (prefix root_name output_file : pystr) :
  (denied TreePy.shown root = true ->
   outcome (TreePy.tree root prefix) = Raised PermissionError)
  /\ (denied TeePy.keep root = true ->
      TeePy.build_tree lower root prefix = Raised PermissionError
      /\ outcome (TeePy.tree_to_jpg lower truetype load_default root_name
                                    root output_file)
         = Raised PermissionError)
  /\ (isdir root = true ->
      outcome (ZprjTree.print_tree root prefix) = Ok tt)
  /\ ZprjTree.print_tree (Dir None) prefix = ([], Ok tt).
Proof.
  repeat apply conj.
  - intros Hden; pose proof (denied_isdir _ _ Hden) as Hd.
    unfold TreePy.tree.
    rewrite (proj1 (console_run root prefix (Nat.le_refl _) Hd)), Hden.
    reflexivity.
  - intros Hden; pose proof (denied_isdir _ _ Hden) as Hd.
    assert (Hb : forall q, TeePy.build_tree lower root q
                           = Raised PermissionError).
    { intros q; unfold TeePy.build_tree.
      rewrite (image_run lower root q (Nat.le_refl _) Hd), Hden.
      reflexivity. }
    split; [apply Hb|].
    unfold TeePy.tree_to_jpg; rewrite Hb; reflexivity.
  - intros Hd; unfold ZprjTree.print_tree.
    rewrite (icon_run root prefix (Nat.le_refl _) Hd); reflexivity.
  - reflexivity.
Qed.

Lemma C6_permission_errors_witness :
  denied TreePy.shown locked_tree = true
  /\ outcome (TreePy.tree locked_tree []) = Raised PermissionError
  /\ outcome (ZprjTree.print_tree locked_tree []) = Ok tt.
Proof.
  pose proof (C6_permission_errors ascii_lower None sample_font locked_tree
                                   [] [] []) as (Hc & _ & Hi & _).
  split; [reflexivity|].
  split; [apply Hc | apply Hi]; reflexivity.
Defined.

(* ================================================================== *)
(** * C10: what the skip set of the printer with icons applies to *)

Lemma filter_filter_impl (A : Type) (f g : A -> bool) (l : list A) :
  (forall x, f x = true -> g x = true) ->
  filter f (filter g l) = filter f l.
Proof.
  intros H; induction l as [|x l IH]; simpl; auto.
  destruct (g x) eqn:Gx; simpl; rewrite IH; auto.
  destruct (f x) eqn:Fx; auto.
  rewrite (H _ Fx) in Gx; discriminate.
Qed.

(** Entries that get no line can be removed from a listing without
    changing what is printed. *)
Lemma icon_entries_filter (g : entry -> bool) (l : list entry) :
  (forall e, ZprjTree.shown e = true -> g e = true) ->
  ZprjTree.entries (filter g l) = ZprjTree.entries l.
Proof.
  intros H; unfold ZprjTree.entries.
  rewrite <- (sort_filter ZprjTree.name_leb name_leb_total name_leb_trans).
  rewrite !filter_filter_impl; auto;
    intros e He; apply H; unfold ZprjTree.shown; rewrite He;
    auto using orb_true_r.
Qed.

Lemma icon_print_filter (g : entry -> bool) (l : list entry)
      (prefix : pystr) :
  (forall e, ZprjTree.shown e = true -> g e = true) ->
  ZprjTree.print_tree (Dir (Some (filter g l))) prefix
  = ZprjTree.print_tree (Dir (Some l)) prefix.
Proof.
  intros H; unfold ZprjTree.print_tree.
  rewrite !icon_run by auto.
  f_equal.
  change (height (Dir (Some (filter g l))))
    with (S (list_max (map (fun e => height (snd e)) (filter g l)))).
  change (height (Dir (Some l)))
    with (S (list_max (map (fun e => height (snd e)) l))).
  cbn [walk]; rewrite (icon_entries_filter _ _ H).
  apply layout_ext; intros e q He.
  apply (walk_fuel _ _ _ icon_select).
  - rewrite <- (icon_entries_filter _ l H) in He.
    eapply (select_height _ _ icon_select); eauto.
  - eapply (select_height _ _ icon_select); eauto.
Qed.

(** C10: the printer with icons prints a line for every regular file of a
    directory, whatever its name, also a name of the skip set; and what it
    prints does not change when the entries that are neither directories
    nor regular files, or the directories named in the skip set, are
    removed from the listing. *)
Theorem C10_skip_applies_to_directories (listing : list entry)
        (prefix : pystr) :
  (forall name,
     In (name, File) listing ->
     exists c, is_connector c
       /\ In (prefix ++ c ++ ZprjTree.page_icon ++ name)
             (stdout (ZprjTree.print_tree (Dir (Some listing)) prefix)))
  /\ ZprjTree.print_tree
       (Dir (Some (filter (fun e => negb (is_other (snd e))) listing)))
       prefix
     = ZprjTree.print_tree (Dir (Some listing)) prefix
  /\ ZprjTree.print_tree
       (Dir (Some (filter (fun e => negb (isdir (snd e)
                                         && str_in (fst e) ZprjTree.SKIP))
                          listing)))
       prefix
     = ZprjTree.print_tree (Dir (Some listing)) prefix.
Proof.
  repeat apply conj.
  - intros name Hin.
    unfold ZprjTree.print_tree.
    rewrite (icon_run (Dir (Some listing)) prefix (Nat.le_refl _) eq_refl).
    cbn [stdout fst height walk].
    apply (layout_own ZprjTree.label _ prefix _ (name, File)).
    apply (select_In _ _ icon_select); auto.
  - apply icon_print_filter.
    intros [name n]; unfold ZprjTree.shown, ZprjTree.is_dir,
                       ZprjTree.is_file, is_other; simpl.
    destruct n; simpl; auto; discriminate.
  - apply icon_print_filter.
    intros [name n]; unfold ZprjTree.shown, ZprjTree.is_dir,
                       ZprjTree.is_file; cbn [fst snd].
    destruct n; cbn [isdir isfile andb orb negb]; auto.
    rewrite orb_false_r; auto.
Qed.

Lemma C10_skip_applies_to_directories_witness :
  In (u "node_modules", File) [(u "node_modules", File); (u "s", Other)]
  /\ exists c, is_connector c
       /\ In ([] ++ c ++ ZprjTree.page_icon ++ u "node_modules")
             (stdout (ZprjTree.print_tree
                        (Dir (Some [(u "node_modules", File);
                                    (u "s", Other)])) [])).
Proof.
  split; [left; reflexivity|].
  apply (proj1 (C10_skip_applies_to_directories
                  [(u "node_modules", File); (u "s", Other)] [])).
  left; reflexivity.
Defined.

(* ================================================================== *)
(** * C4: the order of the entries *)

Lemma sorted_filter (A : Type) (R : A -> A -> Prop) (f : A -> bool)
      (l : list A) :
  StronglySorted R l -> StronglySorted R (filter f l).
Proof.
  induction 1 as [|x l Hs IH Hx]; simpl; [constructor|].
  destruct (f x); auto.
  constructor; auto.
  apply Forall_forall; intros y Hy; apply filter_In in Hy.
  rewrite Forall_forall in Hx; apply Hx, Hy.
Qed.

Lemma key_leb_total (a b : bool * pystr) :
  TeePy.key_leb a b = true \/ TeePy.key_leb b a = true.
Proof.
  destruct a as [[|] x], b as [[|] y]; unfold TeePy.key_leb; simpl; auto;
    apply str_leb_total.
Qed.

Lemma key_leb_trans (a b c : bool * pystr) :
  TeePy.key_leb a b = true -> TeePy.key_leb b c = true ->
  TeePy.key_leb a c = true.
Proof.
  destruct a as [[|] x], b as [[|] y], c as [[|] z];
    unfold TeePy.key_leb; simpl; auto; try discriminate;
    apply str_leb_trans.
Qed.

Lemma console_lexicographic (l : list entry) :
  lexicographic (TreePy.entries l).
Proof.
  apply (sort_sorted TreePy.name_leb name_leb_total name_leb_trans).
Qed.

Lemma icon_directories_first (l : list entry) :
  directories_first lexicographic (ZprjTree.entries l).
Proof.
  pose proof (sort_sorted ZprjTree.name_leb name_leb_total name_leb_trans l)
    as Hs.
  exists (filter ZprjTree.is_dir (sort ZprjTree.name_leb l)),
         (filter ZprjTree.is_file (sort ZprjTree.name_leb l)).
  repeat split.
  - apply Forall_forall; intros e He; apply filter_In in He.
    destruct He as [_ He]; unfold ZprjTree.is_dir in He.
    apply andb_true_iff in He; tauto.
  - apply Forall_forall; intros e He; apply filter_In in He.
    destruct He as [_ He]; unfold ZprjTree.is_file in He.
    destruct (snd e); simpl in *; auto; discriminate.
  - apply sorted_filter, Hs.
  - apply sorted_filter, Hs.
Qed.

Lemma key_sorted_split (lower : pystr -> pystr) (es : list entry) :
  StronglySorted (lep (TeePy.entry_leb lower)) es ->
  directories_first (caseless lower) es.
Proof.
  induction 1 as [|e es Hs IH He].
  - exists [], []; repeat split; constructor.
  - destruct IH as (ds & fs & -> & Hds & Hfs & Sds & Sfs).
    rewrite Forall_forall in He.
    destruct (isdir (snd e)) eqn:Hd.
    + exists (e :: ds), fs; repeat split; auto.
      constructor; auto.
      apply Forall_forall; intros b Hb.
      specialize (He b (in_or_app _ _ _ (or_introl Hb))).
      rewrite Forall_forall in Hds; specialize (Hds b Hb).
      unfold lep, TeePy.entry_leb, TeePy.key, TeePy.key_leb in He.
      simpl in He; rewrite Hd, Hds in He; exact He.
    + assert (ds = []) as ->.
      { destruct ds as [|d ds]; auto.
        specialize (He d (or_introl eq_refl)).
        inversion Hds as [|? ? Hdd _]; subst.
        unfold lep, TeePy.entry_leb, TeePy.key, TeePy.key_leb in He.
        simpl in He; rewrite Hd, Hdd in He; discriminate. }
      exists [], (e :: fs); repeat split; auto.
      constructor; auto.
      apply Forall_forall; intros b Hb.
      specialize (He b Hb).
      rewrite Forall_forall in Hfs; specialize (Hfs b Hb).
      unfold lep, TeePy.entry_leb, TeePy.key, TeePy.key_leb in He.
      simpl in He; rewrite Hd, Hfs in He; exact He.
Qed.

Lemma image_directories_first (lower : pystr -> pystr) (l : list entry) :
  directories_first (caseless lower) (TeePy.entries lower l).
Proof.
  apply key_sorted_split.
  apply (sort_sorted (TeePy.entry_leb lower)).
  - intros a b; apply key_leb_total.
  - intros a b c; apply key_leb_trans.
Qed.

(** C4, as stated, fails whichever way "lexicographically" is read.  Read
    as the order of Python strings, the image printer orders the files [B]
    and [a] as [a], [B], which is neither lexicographic nor directories
    first with lexicographic groups.  Read, for the image printer, as the
    order of the lower-cased names, two printers list directories first,
    not exactly one. *)
Lemma C4_counterexample :
  ~ ordering_as_specified ascii_lower (fun _ => lexicographic)
  /\ ~ ordering_as_specified ascii_lower
         (fun v => match v with
                   | Image => caseless ascii_lower
                   | _ => lexicographic
                   end).
Proof.
  split.
  - intros (H & _ & _).
    specialize (H Image [(u "B", File); (u "a", File)]).
    change (displayed ascii_lower Image [(u "B", File); (u "a", File)])
      with [(u "a", File); (u "B", File)] in H.
    assert (Hno : ~ lexicographic [(u "a", File); (u "B", File)]).
    { intros Hs; inversion Hs as [|? ? _ Hall]; subst.
      inversion Hall as [|? ? Hab _]; subst.
      vm_compute in Hab; discriminate. }
    destruct H as [H|(ds & fs & E & Hds & _ & _ & Sfs)]; [exact (Hno H)|].
    destruct ds as [|d ds].
    + simpl in E; subst fs; exact (Hno Sfs).
    + inversion E; subst d.
      inversion Hds as [|? ? Hd _]; discriminate.
  - intros (_ & _ & v & _ & Huniq).
    assert (Hi : Image = v)
      by (apply Huniq; intros l; apply image_directories_first).
    assert (Hz : Icons = v)
      by (apply Huniq; intros l; apply icon_directories_first).
    congruence.
Qed.

(** C4, amended: the console printer displays the entries it keeps in the
    order of their names as Python compares strings; the image printer
    displays the entries it keeps directories first, each group in the
    order of the lower-cased names; the printer with icons displays the
    directories outside its skip set first and the regular files after
    them, each group in the order of the names.  Two printers, not one,
    list directories first. *)
Theorem C4_ordering (lower : pystr -> pystr) (listing : list entry) :
  (lexicographic (displayed lower Console listing)
   /\ Permutation (displayed lower Console listing)
                  (filter TreePy.shown listing))
  /\ (directories_first (caseless lower) (displayed lower Image listing)
      /\ Permutation (displayed lower Image listing)
                     (filter TeePy.keep listing))
  /\ (directories_first lexicographic (displayed lower Icons listing)
      /\ Permutation (displayed lower Icons listing)
                     (filter ZprjTree.shown listing)).
Proof.
  repeat apply conj.
  - apply console_lexicographic.
  - apply console_select.
  - apply image_directories_first.
  - apply image_select.
  - apply icon_directories_first.
  - apply icon_select.
Qed.

(* ================================================================== *)
(** * C5: timeouts of the HTTP calls *)

Lemma returns_ends (A : Type) (m : io A) : returns m -> ends m.
Proof. unfold returns, ends; destruct (outcome m); auto. Qed.

Lemma returns_print (s : pystr) : returns (print s).
Proof. exact I. Qed.

Lemma ends_lift (A : Type) (r : result A) :
  r <> Blocked -> r <> OutOfFuel -> ends (lift r).
Proof. unfold ends; destruct r; simpl; auto. Qed.

Lemma ends_bind (A B : Type) (m : io A) (k : A -> io B) :
  ends m -> (forall a, ends (k a)) -> ends (bind m k).
Proof.
  unfold ends; destruct m as [out [a|e| |]]; simpl; try tauto.
  intros _ H; specialize (H a); destruct (k a); exact H.
Qed.

Lemma returns_bind (A B : Type) (m : io A) (k : A -> io B) :
  returns m -> (forall a, returns (k a)) -> returns (bind m k).
Proof.
  unfold returns; destruct m as [out [a|e| |]]; simpl; try tauto.
  intros _ H; specialize (H a); destruct (k a); exact H.
Qed.

Lemma returns_try (A : Type) (m : io A) (h : exn -> option (io A)) :
  ends m -> (forall e, exists k, h e = Some k /\ returns k) ->
  returns (try_except m h).
Proof.
  unfold ends, returns; destruct m as [out [a|e| |]]; simpl; try tauto.
  intros _ H; destruct (H e) as (k & -> & Hk).
  destruct k; exact Hk.
Qed.

Lemma ends_post (rq : request) (server : endpoint) :
  timeout rq <> None -> ends (lift (requests_post rq server)).
Proof.
  intros Ht; apply ends_lift; destruct server; simpl;
    try discriminate; destruct (timeout rq); congruence.
Qed.

Lemma ends_response_json (r : response) : ends (lift (response_json r)).
Proof.
  apply ends_lift; unfold response_json; destruct (json_body r);
    discriminate.
Qed.

Create HintDb returns.
#[local] Hint Resolve returns_ends returns_print ends_response_json
  : returns.

Section AiReturns.
Variable API_KEY : pystr.
Variables json_dumps str_json : json -> pystr.
Variable str_exn : exn -> pystr.
Variable response_time : nat -> pystr.

Lemma run_case_returns (i : nat) (tc : AiPy.test_case)
      (server : endpoint) :
  returns (AiPy.run_case API_KEY json_dumps str_exn response_time i tc
                         server).
Proof.
  unfold AiPy.run_case.
  repeat (apply returns_bind; [solve [auto with returns] | intros _]).
  apply returns_bind; [|intros _; apply returns_print].
  apply returns_try.
  - apply ends_bind; [solve [auto with returns] | intros _].
    apply ends_bind; [apply ends_post; discriminate | intros r].
    repeat (apply ends_bind; [solve [auto with returns] | intros _]).
    destruct (status_code r =? 200)%Z.
    + apply ends_bind; [solve [auto with returns] | intros result].
      repeat (apply ends_bind; [solve [auto with returns] | intros _]).
      apply ends_bind;
        [apply ends_lift; destruct result; discriminate | intros present].
      destruct present; [|auto with returns].
      apply ends_bind.
      * unfold AiPy.extract_translation.
        apply ends_bind;
          [apply ends_lift; unfold getitem; destruct result;
           try discriminate; destruct (assoc _ _); discriminate
          | intros v].
        apply ends_bind;
          [apply ends_lift; destruct v; discriminate | intros s].
        exact I.
      * intros translation.
        repeat (apply ends_bind; [solve [auto with returns] | intros _]).
        destruct translation; auto with returns.
    + apply ends_bind; [solve [auto with returns] | intros _].
      apply returns_ends, returns_try.
      * apply ends_bind; auto with returns.
      * intros e; eexists; split; [reflexivity | apply returns_print].
  - intros e; destruct e; eexists; (split; [reflexivity|]);
      apply returns_print.
Qed.

Lemma cases_for_returns (servers : nat -> endpoint) (i : nat)
      (cases : list AiPy.test_case) :
  returns (AiPy.cases_for API_KEY json_dumps str_exn response_time servers
                          i cases).
Proof.
  revert i; induction cases as [|tc cases IH]; intros i; simpl.
  - exact I.
  - apply returns_bind; [apply run_case_returns | intros _; apply IH].
Qed.

Lemma connectivity_returns (server : endpoint) :
  returns (AiPy.test_api_connectivity API_KEY str_json str_exn server).
Proof.
  unfold AiPy.test_api_connectivity.
  apply returns_bind; [solve [auto with returns] | intros _].
  apply returns_try.
  - apply ends_bind; [apply ends_post; discriminate | intros r].
    apply ends_bind; [solve [auto with returns] | intros _].
    apply ends_bind.
    + destruct (status_code r =? 401)%Z; [auto with returns|].
      destruct (status_code r =? 200)%Z; auto with returns.
    + intros _; apply ends_bind; auto with returns.
  - intros e; eexists; split; [reflexivity | apply returns_print].
Qed.
End AiReturns.

Lemma returns_unit (m : io unit) : returns m -> outcome m = Ok tt.
Proof.
  unfold returns; destruct (outcome m) as [[]|e| |]; tauto.
Qed.

(** C5, as stated, fails for api.py: its only POST is made without a
    timeout, and an endpoint that never answers blocks the script. *)
Lemma C5_counterexample :
  ~ (forall rq, In rq (all_posts []) -> timeout rq <> None)
  /\ outcome (ApiPy.main [] (fun _ => []) (fun _ => []) Silent) = Blocked.
Proof.
  split; [|reflexivity].
  intros H; apply (H (ApiPy.api_request [])); [|reflexivity].
  unfold all_posts; apply in_or_app; right; left; reflexivity.
Qed.

(** C5, amended: every POST of ai.py is made with a timeout (ten seconds
    for the connectivity check, thirty for each translation), so both of
    its functions return whatever the endpoint does, also when it never
    answers; the POST of api.py is made without a timeout, and api.py
    blocks when the endpoint never answers. *)
Theorem C5_timeouts (API_KEY : pystr) (json_dumps str_json : json -> pystr)
        (str_exn : exn -> pystr) (response_time : nat -> pystr) :
  Forall (fun rq => exists t, timeout rq = Some t /\ (0 < t)%Z)
         (ai_posts API_KEY)
  /\ (forall server,
        outcome (AiPy.test_api_connectivity API_KEY str_json str_exn server)
        = Ok tt)
  /\ (forall servers,
        outcome (AiPy.test_avalai_translation API_KEY json_dumps str_exn
                                              response_time servers)
        = Ok tt)
  /\ timeout (ApiPy.api_request API_KEY) = None
  /\ outcome (ApiPy.main API_KEY str_json str_exn Silent) = Blocked.
Proof.
  repeat apply conj; try reflexivity.
  - unfold ai_posts; simpl.
    repeat constructor; eexists; (split; [reflexivity | lia]).
  - intros server; apply returns_unit, connectivity_returns.
  - intros servers; apply returns_unit.
    unfold AiPy.test_avalai_translation.
    repeat (apply returns_bind; [solve [auto with returns] | intros _]).
    apply returns_bind; [apply cases_for_returns | intros _].
    apply returns_print.
Qed.

(* ================================================================== *)
(** * C7 and C8: what the probes of ai.py print *)

(** C7: when the endpoint answers 200 with a body whose [output_text]
    field is the word hello between two quote characters, the translation
    that is printed is hello alone: blanks around the text, then quote
    characters around it, are stripped from the [output_text] field. *)
Theorem C7_translation_printed (API_KEY : pystr)
        (json_dumps : json -> pystr) (str_exn : exn -> pystr)
        (response_time : nat -> pystr) (i : nat) (tc : AiPy.test_case)
        (body : pystr) :
  In (u "🔤 Translation: 'hello'")
     (stdout (AiPy.run_case API_KEY json_dumps str_exn response_time i tc
                            (Replies (hello_response body))))
  /\ (forall s,
        AiPy.extract_translation (JObj [(u "output_text", JStr s)])
        = ([], Ok (strip_chars [34%N] (strip s))))
  /\ strip_chars [34%N] (strip ([34%N] ++ u "hello" ++ [34%N])) = u "hello"
  /\ strip_chars [34%N] (strip ([32; 34]%N ++ u "hello" ++ [34; 10]%N))
     = u "hello".
Proof.
  repeat apply conj; try reflexivity.
  unfold AiPy.run_case.
  rewrite !bind_print.
  do 2 right.
  generalize (str_nat i) (response_time i). intros ni ti.
  vm_compute.
  do 5 right; left; reflexivity.
Qed.

(** C8: when the endpoint answers 401, the connectivity check prints that
    the API key is invalid or expired, and returns without raising. *)
Theorem C8_invalid_key (API_KEY : pystr) (str_json : json -> pystr)
        (str_exn : exn -> pystr) (r : response) :
  status_code r = 401%Z ->
  In (u "❌ API Key is invalid or expired")
     (stdout (AiPy.test_api_connectivity API_KEY str_json str_exn
                                         (Replies r)))
  /\ outcome (AiPy.test_api_connectivity API_KEY str_json str_exn
                                         (Replies r)) = Ok tt.
Proof.
  intros H; split; [|apply returns_unit, connectivity_returns].
  destruct r as [sc t jb]; simpl in H; subst sc.
  unfold AiPy.test_api_connectivity; rewrite bind_print; right.
  destruct jb as [j|]; vm_compute; right; left; reflexivity.
Qed.

Lemma C8_invalid_key_witness :
  status_code unauthorized_response = 401%Z
  /\ In (u "❌ API Key is invalid or expired")
        (stdout (AiPy.test_api_connectivity [] (fun _ => []) (fun _ => [])
                                            (Replies unauthorized_response)))
  /\ outcome (AiPy.test_api_connectivity [] (fun _ => []) (fun _ => [])
                                         (Replies unauthorized_response))
     = Ok tt.
Proof.
  split; [reflexivity|].
  apply (C8_invalid_key [] (fun _ => []) (fun _ => [])
                        unauthorized_response).
  reflexivity.
Defined.

(* ================================================================== *)
(** * C9: the size of the image *)






